(** * A shallow embedding of [graph::Graph] (src/Graph.h)

    [Graph<key_type, value_type, weight_type>] keeps its nodes in an
    [std::unordered_map<key_type, Node>]; every [Node] keeps a value and its
    outgoing edges in an [std::unordered_map<key_type, weight_type>].
    Both hash maps are modelled by stdpp's [gmap]; iteration over the node
    map (the range-for of [degree_in]) follows [map_to_list], one of the
    orders an [unordered_map] may use.  A thrown [GraphException] is the
    left side of a sum; an iterator returned by an insertion is modelled by
    the key of the entry it designates. *)

From stdpp Require Import base gmap strings list fin_maps.

(** [GraphException("Key not found")] is the only exception the class throws. *)
Inductive GraphException := KeyNotFound.

(** [T] or a thrown [GraphException]. *)
Abbreviation throws A := (GraphException + A)%type.

Section GraphModel.
Context {key_type : Type} `{Countable key_type}.
Context {value_type weight_type : Type}.

(** ** class Graph::Node *)
Record Node := mkNode {
  m_value : value_type;
  m_edge : gmap key_type weight_type
}.

(** [explicit Node(value_type value) : m_value(value) {}]: no edges. *)
Definition Node_ctor (value : value_type) : Node := mkNode value ∅.

Definition getedges (n : Node) : gmap key_type weight_type := m_edge n.
Definition getvalue (n : Node) : value_type := m_value n.

(** [Node::insert_edge]: [m_edge.insert({key, weight})]; the entry is
    written only when [key] is absent.  Returns the updated node and the
    (iterator, inserted) pair. *)
Definition Node_insert_edge (n : Node) (key : key_type) (weight : weight_type)
    : Node * (key_type * bool) :=
  match m_edge n !! key with
  | Some _ => (n, (key, false))
  | None => (mkNode (m_value n) (<[key := weight]> (m_edge n)), (key, true))
  end.

(** [Node::insert_or_assign_edge]: [m_edge.insert_or_assign(key, weight)];
    the flag is true iff the key was not there before. *)
Definition Node_insert_or_assign_edge (n : Node) (key : key_type) (weight : weight_type)
    : Node * (key_type * bool) :=
  (mkNode (m_value n) (<[key := weight]> (m_edge n)),
   (key, match m_edge n !! key with Some _ => false | None => true end)).

(** ** class Graph *)
Record Graph := mkGraph { m_umap : gmap key_type Node }.

(** [Graph() = default]. *)
Definition Graph_default : Graph := mkGraph ∅.

Definition empty (g : Graph) : bool := bool_decide (m_umap g = ∅).
Definition size (g : Graph) : nat := stdpp.base.size (m_umap g).

(** [find]: an iterator to the entry [(key, node)], or [end()] ([None]). *)
Definition find (g : Graph) (key : key_type) : option (key_type * Node) :=
  (fun n => (key, n)) <$> m_umap g !! key.

(** [Graph::at] *)
Definition at_ (g : Graph) (key : key_type) : throws Node :=
  match m_umap g !! key with
  | None => inl KeyNotFound
  | Some n => inr n
  end.

(** The body of the range-for of [degree_in]: one node, one [counter++]. *)
Definition degree_in_step (key : key_type) (counter : nat) (elem : key_type * Node) : nat :=
  match getedges elem.2 !! key with
  | Some _ => S counter
  | None => counter
  end.

(** [Graph::degree_in] *)
Definition degree_in (g : Graph) (key : key_type) : throws nat :=
  match m_umap g !! key with
  | None => inl KeyNotFound
  | Some _ => inr (fold_left (degree_in_step key) (map_to_list (m_umap g)) 0)
  end.

(** [Graph::degree_out] *)
Definition degree_out (g : Graph) (key : key_type) : throws nat :=
  match m_umap g !! key with
  | None => inl KeyNotFound
  | Some n => inr (stdpp.base.size (getedges n))
  end.

(** [Graph::loop] *)
Definition loop (g : Graph) (key : key_type) : throws bool :=
  match m_umap g !! key with
  | None => inl KeyNotFound
  | Some n =>
      match getedges n !! key with
      | Some _ => inr true
      | None => inr false
      end
  end.

(** [insert_node]: [m_umap.insert({key, Node{value}})]. *)
Definition insert_node (g : Graph) (key : key_type) (value : value_type)
    : Graph * (key_type * bool) :=
  match m_umap g !! key with
  | Some _ => (g, (key, false))
  | None => (mkGraph (<[key := Node_ctor value]> (m_umap g)), (key, true))
  end.

(** [insert_or_assign_node]: [m_umap.insert_or_assign(key, Node{value})]. *)
Definition insert_or_assign_node (g : Graph) (key : key_type) (value : value_type)
    : Graph * (key_type * bool) :=
  (mkGraph (<[key := Node_ctor value]> (m_umap g)),
   (key, match m_umap g !! key with Some _ => false | None => true end)).

(** [Graph::insert_edge]: both end points are looked up, the first failed
    lookup throws, then the source node's [insert_edge] runs in place. *)
Definition insert_edge (g : Graph) (end_points : key_type * key_type) (weight : weight_type)
    : throws (Graph * (key_type * bool)) :=
  let first := m_umap g !! end_points.1 in
  let second := m_umap g !! end_points.2 in
  match first with
  | None => inl KeyNotFound
  | Some n =>
      match second with
      | None => inl KeyNotFound
      | Some _ =>
          let '(n', r) := Node_insert_edge n end_points.2 weight in
          inr (mkGraph (<[end_points.1 := n']> (m_umap g)), r)
      end
  end.

(** [Graph::insert_or_assign_edge]: only the source is looked up. *)
Definition insert_or_assign_edge (g : Graph) (end_points : key_type * key_type)
    (weight : weight_type) : throws (Graph * (key_type * bool)) :=
  match m_umap g !! end_points.1 with
  | None => inl KeyNotFound
  | Some n =>
      let '(n', r) := Node_insert_or_assign_edge n end_points.2 weight in
      inr (mkGraph (<[end_points.1 := n']> (m_umap g)), r)
  end.

(** [Graph::swap(Graph& graph)]: [m_umap.swap(graph.m_umap)]; returns the
    new states of [*this] and of [graph]. *)
Definition Graph_swap (this graph : Graph) : Graph * Graph :=
  (mkGraph (m_umap graph), mkGraph (m_umap this)).

(** [Node::empty]: [m_edge.empty()], no outgoing edge. *)
Definition Node_empty (n : Node) : bool := bool_decide (m_edge n = ∅).

(** [Node::size]: [m_edge.size()], the number of outgoing edges. *)
Definition Node_size (n : Node) : nat := stdpp.base.size (m_edge n).

(** [Node::clear]: [m_edge.clear()]; the value stays. *)
Definition Node_clear (n : Node) : Node := mkNode (m_value n) ∅.

(** [Graph::clear]: [m_umap.clear()]. *)
Definition clear (g : Graph) : Graph := mkGraph ∅.

(** [Graph::operator[]]: [m_umap.operator[](key)] value-initializes a
    [Node] ([Node() = default]: a value-initialized [value_type], no edges)
    under an absent [key]; returns the graph and the node referred to. *)
Section Subscript.
Context (value_init : value_type).

Definition subscript (g : Graph) (key : key_type) : Graph * Node :=
  match m_umap g !! key with
  | Some n => (g, n)
  | None => (mkGraph (<[key := mkNode value_init ∅]> (m_umap g)), mkNode value_init ∅)
  end.
End Subscript.

(** ** Graph objects and their special members

    C++ objects of type [Graph] live at locations of a store; copy and
    move construction build a new object at a fresh location, and the
    by-value parameters of the free [swap] are such new objects. *)
Definition loc := nat.
Abbreviation store := (gmap loc Graph).

(** An object's location is fresh when nothing lives there yet. *)
Definition fresh_loc (s : store) : loc := fresh (dom s).

(** [this->swap(graph)] on the objects at [l_this] and [l_graph]. *)
Definition swap_at (s : store) (l_this l_graph : loc) : store :=
  match s !! l_this, s !! l_graph with
  | Some this, Some graph =>
      let '(this', graph') := Graph_swap this graph in
      <[l_graph := graph']> (<[l_this := this']> s)
  | _, _ => s
  end.

(** [Graph(const Graph& graph)]: [m_umap = graph.m_umap] copies the node
    map (and with it every node's edge map) into the new object. *)
Definition copy_construct (s : store) (l_new l_graph : loc) : store :=
  match s !! l_graph with
  | Some graph => <[l_new := mkGraph (m_umap graph)]> s
  | None => s
  end.

(** [Graph(Graph&& graph)]: the new object starts default-constructed
    (empty), then [swap(graph)] calls the member [swap]. *)
Definition move_construct (s : store) (l_new l_graph : loc) : store :=
  swap_at (<[l_new := Graph_default]> s) l_new l_graph.

(** [operator=(Graph&& graph)]: [swap(graph); return *this;]. *)
Definition move_assign (s : store) (l_this l_graph : loc) : store :=
  swap_at s l_this l_graph.

(** [operator=(const Graph& graph)]: [m_umap = graph.m_umap]. *)
Definition copy_assign (s : store) (l_this l_graph : loc) : store :=
  match s !! l_graph with
  | Some graph => <[l_this := mkGraph (m_umap graph)]> s
  | None => s
  end.

(** The namespace-scope [graph::swap(graph1, graph2)]: both parameters are
    copy-constructed from the arguments at [l1] and [l2], the member
    [swap] exchanges the two parameters, and the parameters are destroyed
    on return. *)
Definition swap_free (s : store) (l1 l2 : loc) : store :=
  let p1 := fresh_loc s in
  let s1 := copy_construct s p1 l1 in
  let p2 := fresh_loc s1 in
  let s2 := copy_construct s1 p2 l2 in
  let s3 := swap_at s2 p1 p2 in
  delete p2 (delete p1 s3).

(** A mutation through the object at [l] (a member call that changes it). *)
Definition mutate_at (s : store) (l : loc) (f : Graph -> Graph) : store :=
  match s !! l with
  | Some g => <[l := f g]> s
  | None => s
  end.

End GraphModel.

Arguments Node key_type {_ _} value_type weight_type.
Arguments Graph key_type {_ _} value_type weight_type.

(** ** The degree scenario: nodes A, B, C; edges A->B (5), A->C (2), B->C (1). *)

Definition throws_bind {A B} (m : throws A) (f : A -> throws B) : throws B :=
  match m with inl e => inl e | inr a => f a end.

Definition graph_ABC : Graph string nat nat :=
  let g := (insert_node Graph_default "A" 0).1 in
  let g := (insert_node g "B" 0).1 in
  (insert_node g "C" 0).1.

Definition degree_scenario : throws (Graph string nat nat) :=
  throws_bind (insert_edge graph_ABC ("A", "B") 5) (fun r1 =>
  throws_bind (insert_edge r1.1 ("A", "C") 2) (fun r2 =>
  throws_bind (insert_edge r2.1 ("B", "C") 1) (fun r3 => inr r3.1))).

(** A graph holding node A only. *)
Definition graph_A : Graph string nat nat := (insert_node Graph_default "A" 0).1.

(** A graph holding node B only. *)
Definition graph_B : Graph string nat nat := (insert_node Graph_default "B" 0).1.

(** Two graph objects: A-only at location 0, B-only at location 1. *)
Definition store_AB : gmap loc (Graph string nat nat) := {[0 := graph_A; 1 := graph_B]}.

(** The graph an insertion leaves behind ([Graph_default] if it threw). *)
Definition graph_after {X} (r : throws (Graph string nat nat * X)) : Graph string nat nat :=
  match r with inr (g, _) => g | inl _ => Graph_default end.

(** [graph_ABC] after [insert_edge((A, B), 5)]. *)
Definition graph_ABC_AB : Graph string nat nat := graph_after (insert_edge graph_ABC ("A", "B") 5).

(** [graph_ABC] after [insert_or_assign_edge((A, B), 9)]. *)
Definition graph_ABC_AB9 : Graph string nat nat :=
  graph_after (insert_or_assign_edge graph_ABC ("A", "B") 9).

(** The graph of the degree scenario. *)
Definition scenario_graph : Graph string nat nat :=
  match degree_scenario with inr g => g | inl _ => Graph_default end.

(** The degree queries, after the scenario has run. *)
Definition on_scenario {A} (q : Graph string nat nat -> throws A) : throws A :=
  throws_bind degree_scenario q.

(** ** Proofs *)

Section GraphProofs.
Context {key_type : Type} `{Countable key_type}.
Context {value_type weight_type : Type}.
Local Abbreviation Graph := (Graph key_type value_type weight_type).
Local Abbreviation Node := (Node key_type value_type weight_type).

Lemma Graph_eta (g : Graph) : mkGraph (m_umap g) = g.
Proof. by destruct g. Qed.

Lemma Node_eta (n : Node) : mkNode (m_value n) (m_edge n) = n.
Proof. by destruct n. Qed.

(** The range-for of [degree_in] counts the entries with an edge to [key]. *)
Lemma fold_degree_in_step (key : key_type) (l : list (key_type * Node)) (c : nat) :
  fold_left (degree_in_step key) l c
  = c + length (filter (fun kn : key_type * Node => is_Some (m_edge kn.2 !! key)) l).
Proof.
  revert c. induction l as [|[k n] l IH]; intros c; simpl; [lia|].
  rewrite filter_cons. unfold degree_in_step, getedges; simpl.
  destruct (m_edge n !! key) eqn:E; rewrite IH; case_decide as Hd; simpl.
  - lia.
  - exfalso; apply Hd; eauto.
  - destruct Hd as [? Hx]; simpl in Hx; congruence.
  - lia.
Qed.

Lemma size_filter_map_to_list (P : key_type * Node -> Prop) `{!∀ x, Decision (P x)}
    (m : gmap key_type Node) :
  stdpp.base.size (filter P m) = length (filter P (map_to_list m)).
Proof.
  rewrite map_filter_alt, <-length_map_to_list.
  apply Permutation_length, map_to_list_to_map.
  apply (sublist_NoDup _ ((map_to_list m).*1)); [apply NoDup_fst_map_to_list|].
  apply fmap_sublist, sublist_filter.
Qed.

(** What [degree_in], [degree_out] and [loop] compute on a present key. *)
Lemma degree_queries (g : Graph) (k : key_type) (n : Node) :
  m_umap g !! k = Some n ->
  degree_in g k
    = inr (stdpp.base.size
             (filter (fun kn : key_type * Node => is_Some (m_edge kn.2 !! k)) (m_umap g))) /\
  degree_out g k = inr (stdpp.base.size (m_edge n)) /\
  loop g k = inr (bool_decide (is_Some (m_edge n !! k))).
Proof.
  intros Hk. unfold degree_in, degree_out, loop, getedges. rewrite Hk.
  split; [|split].
  - by rewrite fold_degree_in_step, size_filter_map_to_list.
  - done.
  - by destruct (m_edge n !! k).
Qed.

(** C1: [insert_edge] throws [KeyNotFound] exactly when the source or the
    target is not a node; with both present it runs the source node's
    [insert_edge], which adds the edge and reports [true] when there is no
    edge to the target yet, and otherwise reports [false] and leaves the
    graph, the existing edge included, unchanged. *)
Theorem insert_edge_spec (g : Graph) (source target : key_type) (weight : weight_type) :
  (insert_edge g (source, target) weight = inl KeyNotFound <->
     m_umap g !! source = None \/ m_umap g !! target = None) /\
  (forall n : Node, m_umap g !! source = Some n -> is_Some (m_umap g !! target) ->
     m_edge n !! target = None ->
     insert_edge g (source, target) weight
     = inr (mkGraph (<[source := mkNode (m_value n) (<[target := weight]> (m_edge n))]>
                       (m_umap g)), (target, true))) /\
  (forall (n : Node) (w0 : weight_type), m_umap g !! source = Some n ->
     is_Some (m_umap g !! target) -> m_edge n !! target = Some w0 ->
     insert_edge g (source, target) weight = inr (g, (target, false))).
Proof.
  unfold insert_edge, Node_insert_edge; simpl. split; [|split].
  - destruct (m_umap g !! source) as [n|], (m_umap g !! target) as [m|];
      [|split; auto..].
    destruct (m_edge n !! target); split; [done| |done|]; intros [?|?]; discriminate.
  - intros n Hs [m Ht] He. by rewrite Hs, Ht, He.
  - intros n w0 Hs [m Ht] He. rewrite Hs, Ht, He.
    by rewrite insert_id, Graph_eta.
Qed.

(** C2 (as the code has it): a present source does not save [insert_edge]
    from the check of the target; an absent target throws [KeyNotFound]. *)
Theorem insert_edge_missing_target (g : Graph) (source target : key_type)
    (weight : weight_type) :
  is_Some (m_umap g !! source) -> m_umap g !! target = None ->
  insert_edge g (source, target) weight = inl KeyNotFound.
Proof. intros [n Hs] Ht. unfold insert_edge; simpl. by rewrite Hs, Ht. Qed.

(** C3: [insert_or_assign_edge] throws [KeyNotFound] exactly when the
    source is not a node, whatever the target; with the source present it
    sets the edge to [weight] (new or overwritten) and reports [true]
    exactly when the edge did not exist before. *)
Theorem insert_or_assign_edge_spec (g : Graph) (source target : key_type)
    (weight : weight_type) :
  (insert_or_assign_edge g (source, target) weight = inl KeyNotFound <->
     m_umap g !! source = None) /\
  (forall n : Node, m_umap g !! source = Some n ->
     insert_or_assign_edge g (source, target) weight
     = inr (mkGraph (<[source := mkNode (m_value n) (<[target := weight]> (m_edge n))]>
                       (m_umap g)),
            (target, bool_decide (m_edge n !! target = None)))).
Proof.
  unfold insert_or_assign_edge, Node_insert_or_assign_edge; simpl. split.
  - destruct (m_umap g !! source); split; done.
  - intros n Hs. rewrite Hs. do 3 f_equal.
    destruct (m_edge n !! target); [rewrite bool_decide_eq_false_2 | rewrite bool_decide_eq_true_2]; done.
Qed.

(** C4: [at], [degree_in], [degree_out] and [loop] each throw
    [KeyNotFound] exactly when the key has no node, and return normally
    exactly when it has one. *)
Theorem queries_throw_iff_absent (g : Graph) (k : key_type) :
  (at_ g k = inl KeyNotFound <-> m_umap g !! k = None) /\
  (degree_in g k = inl KeyNotFound <-> m_umap g !! k = None) /\
  (degree_out g k = inl KeyNotFound <-> m_umap g !! k = None) /\
  (loop g k = inl KeyNotFound <-> m_umap g !! k = None) /\
  (is_Some (m_umap g !! k) <->
     (exists n, at_ g k = inr n) /\ (exists d, degree_in g k = inr d) /\
     (exists d, degree_out g k = inr d) /\ (exists b, loop g k = inr b)).
Proof.
  unfold at_, degree_in, degree_out, loop.
  destruct (m_umap g !! k) as [n|] eqn:E.
  - destruct (getedges n !! k); repeat split; try done; eexists; done.
  - repeat split; try done.
    intros [[? ?] _]; discriminate.
Qed.

(** C6: [insert_or_assign_node] puts a fresh node at [key]: it holds
    [value] and has no edges, whatever node was there before, and the flag
    is [true] exactly when [key] was not a node yet. *)
Theorem insert_or_assign_node_replaces (g : Graph) (key : key_type) (value : value_type) :
  at_ (insert_or_assign_node g key value).1 key = inr (mkNode value ∅) /\
  ((insert_or_assign_node g key value).2.2 = true <-> m_umap g !! key = None).
Proof.
  unfold insert_or_assign_node, at_, Node_ctor; simpl. split.
  - by rewrite lookup_insert_eq.
  - destruct (m_umap g !! key); split; done.
Qed.

(** C7: after a successful [insert_node], [find] yields an entry whose
    value is the inserted one; a second [insert_node] on that key reports
    [false] and leaves the graph as it is. *)
Theorem insert_node_find (g g1 : Graph) (key : key_type) (h : key_type)
    (value value2 : value_type) :
  insert_node g key value = (g1, (h, true)) ->
  (exists n, find g1 key = Some (key, n) /\ getvalue n = value) /\
  insert_node g1 key value2 = (g1, (key, false)).
Proof.
  unfold insert_node, find, getvalue.
  destruct (m_umap g !! key) eqn:E; [congruence|].
  intros Hins. injection Hins as <- _. simpl. rewrite lookup_insert_eq. simpl.
  split; [by eexists|done].
Qed.

Lemma swap_at_other (s : gmap loc Graph) (a b i : loc) :
  i ≠ a -> i ≠ b -> swap_at s a b !! i = s !! i.
Proof.
  intros Ha Hb. unfold swap_at.
  destruct (s !! a), (s !! b); simpl; try done.
  by rewrite !lookup_insert_ne.
Qed.

Lemma copy_construct_other (s : gmap loc Graph) (l_new l i : loc) :
  i ≠ l_new -> copy_construct s l_new l !! i = s !! i.
Proof.
  intros Hi. unfold copy_construct. destruct (s !! l); [|done].
  by rewrite lookup_insert_ne.
Qed.

Lemma fresh_loc_None (s : gmap loc Graph) : s !! fresh_loc s = None.
Proof. apply not_elem_of_dom, is_fresh. Qed.

(** C8 (as the code has it): move construction leaves the source empty
    and the new object with the source's graph; move assignment exchanges
    the two objects' graphs, so the source receives the target's previous
    graph. *)
Theorem move_semantics (s : gmap loc Graph) :
  (forall (l_src l_new : loc) (g1 : Graph),
     s !! l_src = Some g1 -> s !! l_new = None ->
     move_construct s l_new l_src !! l_src = Some Graph_default /\
     empty (Graph_default : Graph) = true /\
     move_construct s l_new l_src !! l_new = Some g1 /\
     (forall l, l ≠ l_src -> l ≠ l_new -> move_construct s l_new l_src !! l = s !! l)) /\
  (forall (l_this l_src : loc) (g_this g_src : Graph),
     l_this ≠ l_src -> s !! l_this = Some g_this -> s !! l_src = Some g_src ->
     move_assign s l_this l_src !! l_this = Some g_src /\
     move_assign s l_this l_src !! l_src = Some g_this).
Proof.
  split.
  - intros l_src l_new g1 Hs Hn.
    assert (Hne : l_src ≠ l_new) by congruence.
    unfold move_construct, swap_at, Graph_swap.
    rewrite lookup_insert_eq, lookup_insert_ne by done. rewrite Hs. simpl.
    split; [by rewrite lookup_insert_eq|]. split; [done|]. split.
    + by rewrite lookup_insert_ne, lookup_insert_eq, Graph_eta.
    + intros l Hl1 Hl2. by rewrite !lookup_insert_ne.
  - intros l_this l_src g_this g_src Hne Ht Hs.
    unfold move_assign, swap_at, Graph_swap. rewrite Ht, Hs. simpl.
    rewrite lookup_insert_ne, lookup_insert_eq by done.
    rewrite lookup_insert_eq. by rewrite !Graph_eta.
Qed.

(** C9: the free [swap] works on by-value copies of its arguments, so the
    caller's objects are all left as they were (the store is unchanged),
    while the member [swap] does exchange two objects' graphs. *)
Theorem swap_free_no_effect (s : gmap loc Graph) (l1 l2 : loc) :
  swap_free s l1 l2 = s /\
  (forall g1 g2 : Graph, l1 ≠ l2 -> s !! l1 = Some g1 -> s !! l2 = Some g2 ->
     swap_at s l1 l2 !! l1 = Some g2 /\ swap_at s l1 l2 !! l2 = Some g1).
Proof.
  split.
  - unfold swap_free.
    set (p1 := fresh_loc s). set (s1 := copy_construct s p1 l1).
    set (p2 := fresh_loc s1).
    assert (Hp1 : s !! p1 = None) by apply fresh_loc_None.
    assert (Hp2 : s !! p2 = None).
    { destruct (decide (p2 = p1)) as [->|Hne]; [done|].
      rewrite <-(copy_construct_other s p1 l1 p2 Hne). apply fresh_loc_None. }
    apply map_eq. intros i.
    destruct (decide (i = p2)) as [->|Hi2]; [by rewrite lookup_delete_eq|].
    rewrite lookup_delete_ne by done.
    destruct (decide (i = p1)) as [->|Hi1]; [by rewrite lookup_delete_eq|].
    rewrite lookup_delete_ne by done.
    rewrite swap_at_other by done.
    rewrite copy_construct_other by done. subst s1.
    by rewrite copy_construct_other.
  - intros g1 g2 Hne H1 H2. unfold swap_at, Graph_swap. rewrite H1, H2. simpl.
    rewrite lookup_insert_ne, lookup_insert_eq by done.
    rewrite lookup_insert_eq. by rewrite !Graph_eta.
Qed.

(** C10: a copy-constructed graph is independent of its source: any
    mutation of the copy leaves the source graph (its size, nodes and
    edges) as it was, and the copy starts equal to the source. *)
Theorem copy_construct_independent (s : gmap loc Graph) (l1 l2 : loc) (g1 : Graph)
    (f : Graph -> Graph) :
  s !! l1 = Some g1 -> s !! l2 = None ->
  copy_construct s l2 l1 !! l2 = Some g1 /\
  mutate_at (copy_construct s l2 l1) l2 f !! l1 = Some g1.
Proof.
  intros H1 H2. assert (Hne : l1 ≠ l2) by congruence.
  unfold copy_construct, mutate_at. rewrite H1, lookup_insert_eq.
  split; [by rewrite Graph_eta|].
  by rewrite !lookup_insert_ne.
Qed.

End GraphProofs.

(** ** Further properties of the members of [Graph] and [Node] *)

Section GraphExtras.
Context {key_type : Type} `{Countable key_type}.
Context {value_type weight_type : Type}.
Local Abbreviation Graph := (Graph key_type value_type weight_type).
Local Abbreviation Node := (Node key_type value_type weight_type).

(** The two outcomes of a successful [insert_edge]. *)
Lemma insert_edge_inr (g g' : Graph) (s t h : key_type) (w : weight_type) (ok : bool) :
  insert_edge g (s, t) w = inr (g', (h, ok)) ->
  exists n, m_umap g !! s = Some n /\ is_Some (m_umap g !! t) /\ h = t /\
    ((m_edge n !! t = None /\ ok = true /\
      g' = mkGraph (<[s := mkNode (m_value n) (<[t := w]> (m_edge n))]> (m_umap g))) \/
     (is_Some (m_edge n !! t) /\ ok = false /\ g' = g)).
Proof.
  unfold insert_edge, Node_insert_edge; simpl.
  destruct (m_umap g !! s) as [n|] eqn:Hs; [|discriminate].
  destruct (m_umap g !! t) as [m|] eqn:Ht; [|discriminate].
  destruct (m_edge n !! t) eqn:He; intros Hr; injection Hr as <- <- <-;
    exists n; (split; [done|split; [eauto|split; [done|]]]).
  - right. split; [eauto|split; [done|]]. by rewrite insert_id, Graph_eta.
  - left. done.
Qed.

(** [Graph::empty] holds exactly when [Graph::size] is 0. *)
Theorem empty_iff_size_zero (g : Graph) : empty g = true <-> size g = 0.
Proof.
  unfold empty, size. rewrite bool_decide_eq_true, map_size_empty_iff. done.
Qed.

(** After [clear] the graph is empty and holds no key: every node query
    throws [KeyNotFound] and no edge can be inserted. *)
Theorem clear_removes_all (g : Graph) :
  empty (clear g) = true /\ size (clear g) = 0 /\
  forall (k t : key_type) (w : weight_type),
    at_ (clear g) k = inl KeyNotFound /\ degree_in (clear g) k = inl KeyNotFound /\
    degree_out (clear g) k = inl KeyNotFound /\ loop (clear g) k = inl KeyNotFound /\
    insert_edge (clear g) (k, t) w = inl KeyNotFound /\
    insert_or_assign_edge (clear g) (k, t) w = inl KeyNotFound.
Proof. split; [done|split; [done|]]. intros k t w. done. Qed.

(** [operator[]] on an absent key adds a value-initialized node with no
    edges, one more node in the graph, and returns it. *)
Theorem subscript_absent (value_init : value_type) (g : Graph) (k : key_type) :
  m_umap g !! k = None ->
  (subscript value_init g k).2 = mkNode value_init ∅ /\
  size (subscript value_init g k).1 = S (size g) /\
  at_ (subscript value_init g k).1 k = inr (mkNode value_init ∅).
Proof.
  intros Hk. unfold subscript, size, at_. rewrite Hk; simpl.
  split; [done|split].
  - by apply map_size_insert_None.
  - by rewrite lookup_insert_eq.
Qed.

(** [operator[]] on a present key returns its node and changes nothing. *)
Theorem subscript_present (value_init : value_type) (g : Graph) (k : key_type) (n : Node) :
  m_umap g !! k = Some n -> subscript value_init g k = (g, n).
Proof. intros Hk. unfold subscript. by rewrite Hk. Qed.

(** [insert_node] adds one node when it reports success and leaves the
    graph as it is otherwise; it succeeds exactly on an absent key. *)
Theorem insert_node_size (g : Graph) (k : key_type) (v : value_type) :
  ((insert_node g k v).2.2 = true <-> m_umap g !! k = None) /\
  size (insert_node g k v).1
    = (if (insert_node g k v).2.2 then S (size g) else size g) /\
  ((insert_node g k v).2.2 = false -> (insert_node g k v).1 = g).
Proof.
  unfold insert_node, size. destruct (m_umap g !! k) eqn:Hk; simpl.
  - repeat split; done.
  - repeat split; try done. by apply map_size_insert_None.
Qed.

(** [insert_or_assign_node] grows the graph by one node exactly when it
    reports a new key, and keeps the size when it replaces a node. *)
Theorem insert_or_assign_node_size (g : Graph) (k : key_type) (v : value_type) :
  size (insert_or_assign_node g k v).1
    = if (insert_or_assign_node g k v).2.2 then S (size g) else size g.
Proof.
  unfold insert_or_assign_node, size; simpl. rewrite map_size_insert.
  by destruct (m_umap g !! k).
Qed.

(** Node insertions ([insert_node], [insert_or_assign_node]) touch no
    other key's node. *)
Theorem node_insertions_frame (g : Graph) (k k' : key_type) (v : value_type) :
  k' <> k ->
  m_umap (insert_node g k v).1 !! k' = m_umap g !! k' /\
  m_umap (insert_or_assign_node g k v).1 !! k' = m_umap g !! k'.
Proof.
  intros Hne. unfold insert_node, insert_or_assign_node; simpl.
  split; [destruct (m_umap g !! k); simpl|]; try done; by rewrite lookup_insert_ne.
Qed.

(** A successful [insert_edge] changes only the source node's edge map:
    every other node, and the source's value, stay as they were. *)
Theorem insert_edge_frame (g g' : Graph) (s t h : key_type) (w : weight_type) (ok : bool) :
  insert_edge g (s, t) w = inr (g', (h, ok)) ->
  (forall k, k <> s -> m_umap g' !! k = m_umap g !! k) /\
  exists n n', m_umap g !! s = Some n /\ m_umap g' !! s = Some n' /\
    m_value n' = m_value n.
Proof.
  intros Hr. destruct (insert_edge_inr _ _ _ _ _ _ _ Hr)
    as (n & Hs & _ & _ & [(_ & _ & ->) | (_ & _ & ->)]).
  - split.
    + intros k Hk. simpl. by rewrite lookup_insert_ne.
    + exists n, (mkNode (m_value n) (<[t := w]> (m_edge n))). simpl.
      by rewrite lookup_insert_eq.
  - split; [done|]. by exists n, n.
Qed.

(** A successful [insert_edge] raises the source's [degree_out] by one
    when it reports an insertion, and leaves it otherwise. *)
Theorem insert_edge_degree_out (g g' : Graph) (s t h : key_type) (w : weight_type)
    (ok : bool) :
  insert_edge g (s, t) w = inr (g', (h, ok)) ->
  exists d, degree_out g s = inr d /\ degree_out g' s = inr (if ok then S d else d).
Proof.
  intros Hr. destruct (insert_edge_inr _ _ _ _ _ _ _ Hr)
    as (n & Hs & _ & _ & [(He & -> & ->) | (_ & -> & ->)]).
  - exists (stdpp.base.size (m_edge n)). unfold degree_out, getedges; simpl.
    rewrite Hs, lookup_insert_eq; simpl. split; [done|].
    by rewrite map_size_insert_None.
  - unfold degree_out. rewrite Hs. by eexists.
Qed.

(** A successful [insert_edge] raises the target's [degree_in] by one when
    it reports an insertion, and leaves it otherwise. *)
Theorem insert_edge_degree_in (g g' : Graph) (s t h : key_type) (w : weight_type)
    (ok : bool) :
  insert_edge g (s, t) w = inr (g', (h, ok)) ->
  exists d, degree_in g t = inr d /\ degree_in g' t = inr (if ok then S d else d).
Proof.
  intros Hr. destruct (insert_edge_inr _ _ _ _ _ _ _ Hr)
    as (n & Hs & [m Ht] & _ & [(He & -> & ->) | (_ & -> & ->)]).
  - destruct (degree_queries g t m Ht) as [Hd _].
    set (n' := mkNode (m_value n) (<[t := w]> (m_edge n))).
    assert (Ht' : m_umap (mkGraph (<[s := n']> (m_umap g))) !! t = Some (if decide (s = t) then n' else m)).
    { simpl. destruct (decide (s = t)) as [->|Hne]; [by rewrite lookup_insert_eq|].
      by rewrite lookup_insert_ne. }
    destruct (degree_queries _ t _ Ht') as [Hd' _].
    eexists; split; [exact Hd|]. rewrite Hd'. simpl. f_equal.
    rewrite map_filter_insert_True by (simpl; by rewrite lookup_insert_eq).
    apply map_size_insert_None, map_lookup_filter_None_2.
    right. intros x Hx. rewrite Hs in Hx. injection Hx as <-. simpl.
    rewrite He. intros [? ?]; discriminate.
  - destruct (degree_queries g t m Ht) as [Hd _]. by eexists.
Qed.

(** After a successful [insert_or_assign_edge] the source node has an edge
    to the target carrying the new weight, whatever was there before. *)
Theorem insert_or_assign_edge_sets_weight (g g' : Graph) (s t : key_type)
    (w : weight_type) (r : key_type * bool) :
  insert_or_assign_edge g (s, t) w = inr (g', r) ->
  exists n', at_ g' s = inr n' /\ m_edge n' !! t = Some w.
Proof.
  unfold insert_or_assign_edge, Node_insert_or_assign_edge, at_; simpl.
  destruct (m_umap g !! s) as [n|]; [|discriminate].
  intros Hr. injection Hr as <- _. simpl. rewrite lookup_insert_eq.
  eexists; split; [done|]. simpl. by rewrite lookup_insert_eq.
Qed.

(** [insert_or_assign_edge] accepts a target that is not a node: the edge
    is stored and counted by the source's [degree_out], while the target
    stays absent and [degree_in] of it throws [KeyNotFound]. *)
Theorem insert_or_assign_edge_dangling (g : Graph) (s t : key_type) (w : weight_type) :
  is_Some (m_umap g !! s) -> m_umap g !! t = None ->
  exists g' r, insert_or_assign_edge g (s, t) w = inr (g', r) /\
    m_umap g' !! t = None /\ degree_in g' t = inl KeyNotFound /\
    exists n', at_ g' s = inr n' /\ m_edge n' !! t = Some w.
Proof.
  intros [n Hs] Ht.
  assert (Hne : s <> t) by congruence.
  unfold insert_or_assign_edge, Node_insert_or_assign_edge, degree_in, at_; simpl.
  rewrite Hs. eexists _, _. split; [done|]. simpl.
  rewrite lookup_insert_ne by done. rewrite Ht.
  split; [done|split; [done|]].
  rewrite lookup_insert_eq. eexists; split; [done|]. simpl. by rewrite lookup_insert_eq.
Qed.

(** Inserting a self-edge on a node, with [insert_edge] or
    [insert_or_assign_edge], makes [loop] true there. *)
Theorem self_edge_loop (g g1 g2 : Graph) (k : key_type) (w : weight_type)
    (r1 r2 : key_type * bool) :
  (insert_edge g (k, k) w = inr (g1, r1) -> loop g1 k = inr true) /\
  (insert_or_assign_edge g (k, k) w = inr (g2, r2) -> loop g2 k = inr true).
Proof.
  split.
  - destruct r1 as [h ok]. intros Hr.
    destruct (insert_edge_inr _ _ _ _ _ _ _ Hr)
      as (n & Hs & _ & _ & [(_ & _ & ->) | ([w0 He] & _ & ->)]);
      unfold loop, getedges; simpl.
    + by rewrite lookup_insert_eq; simpl; rewrite lookup_insert_eq.
    + by rewrite Hs, He.
  - intros Hr. destruct (insert_or_assign_edge_sets_weight _ _ _ _ _ _ Hr) as (n' & Ha & He).
    unfold at_ in Ha. unfold loop, getedges.
    destruct (m_umap g2 !! k); [|discriminate]. injection Ha as ->. by rewrite He.
Qed.

(** [degree_in] never exceeds the number of nodes: each node is counted at
    most once, however the edges are laid out. *)
Theorem degree_in_le_size (g : Graph) (k : key_type) (d : nat) :
  degree_in g k = inr d -> d <= size g.
Proof.
  intros Hd. destruct (m_umap g !! k) as [n|] eqn:Hk.
  - destruct (degree_queries g k n Hk) as [Hd' _]. rewrite Hd in Hd'.
    injection Hd' as ->. apply map_size_filter.
  - unfold degree_in in Hd. rewrite Hk in Hd. discriminate.
Qed.

(** [Node::empty] holds exactly when [Node::size] is 0, and [Node::clear]
    leaves the node without edges but with its value. *)
Theorem node_empty_size_clear (n : Node) :
  (Node_empty n = true <-> Node_size n = 0) /\
  Node_empty (Node_clear n) = true /\ getvalue (Node_clear n) = getvalue n.
Proof.
  unfold Node_empty, Node_size, Node_clear, getvalue; simpl.
  rewrite bool_decide_eq_true, map_size_empty_iff. done.
Qed.

(** Copy assignment makes the target hold the source's graph and leaves
    the source and every other object as they were. *)
Theorem copy_assign_spec (s : gmap loc Graph) (l_this l_src : loc) (g : Graph) :
  s !! l_src = Some g ->
  copy_assign s l_this l_src !! l_this = Some g /\
  copy_assign s l_this l_src !! l_src = Some g /\
  (forall l, l <> l_this -> copy_assign s l_this l_src !! l = s !! l).
Proof.
  intros Hs. unfold copy_assign. rewrite Hs, Graph_eta.
  split; [by rewrite lookup_insert_eq|split].
  - destruct (decide (l_this = l_src)) as [->|Hne]; [by rewrite lookup_insert_eq|].
    by rewrite lookup_insert_ne.
  - intros l Hl. by rewrite lookup_insert_ne.
Qed.

(** The member [swap] undoes itself, and a self-swap (so also a self
    move-assignment [g = std::move(g)]) changes nothing. *)
Theorem swap_at_involutive (s : gmap loc Graph) (a b : loc) :
  swap_at (swap_at s a b) a b = s /\ swap_at s a a = s /\ move_assign s a a = s.
Proof.
  assert (Hself : forall s' : gmap loc Graph, swap_at s' a a = s').
  { intros s'. unfold swap_at, Graph_swap.
    destruct (s' !! a) as [x|] eqn:Ha; [|done]. simpl.
    rewrite insert_insert_eq, Graph_eta. by apply insert_id. }
  split; [|split; [apply Hself | unfold move_assign; apply Hself]].
  destruct (decide (a = b)) as [->|Hne]; [by rewrite !Hself|].
  destruct (s !! a) as [x|] eqn:Ha;
    [|assert (E : swap_at s a b = s) by (unfold swap_at; by rewrite Ha);
      by rewrite !E].
  destruct (s !! b) as [y|] eqn:Hb;
    [|assert (E : swap_at s a b = s) by (unfold swap_at; by rewrite Ha, Hb);
      by rewrite !E].
  assert (E : swap_at s a b = <[b := mkGraph (m_umap x)]> (<[a := mkGraph (m_umap y)]> s))
    by (unfold swap_at; by rewrite Ha, Hb).
  rewrite E. unfold swap_at, Graph_swap.
  rewrite lookup_insert_ne, lookup_insert_eq by done. rewrite lookup_insert_eq. simpl.
  rewrite !Graph_eta. apply map_eq. intros i.
  destruct (decide (i = b)) as [->|Hib]; [by rewrite lookup_insert_eq|].
  rewrite lookup_insert_ne by done.
  destruct (decide (i = a)) as [->|Hia]; [by rewrite lookup_insert_eq|].
  by rewrite !lookup_insert_ne.
Qed.

End GraphExtras.


(** C2: with only node A, [insert_edge ((A, "ghost"), 1)] throws
    [KeyNotFound] although the source A is present: the target is checked. *)
Lemma insert_edge_target_checked_cex :
  is_Some (m_umap graph_A !! "A") /\ m_umap graph_A !! "ghost" = None /\
  insert_edge graph_A ("A", "ghost") 1 = inl KeyNotFound.
Proof. vm_compute. split; [eauto|split; reflexivity]. Qed.

(** C5: on a present key, [degree_in] counts the nodes with an edge to it,
    [degree_out] counts the key's own edges and [loop] tells whether the
    key's node has an edge to itself; on the A, B, C scenario this gives
    degree_out(A) = 2, degree_out(C) = 0, degree_in(C) = 2, degree_in(A) = 0
    and loop(A) = false. *)
Theorem degree_in_out_loop_spec :
  (forall (K V W : Type) `{Countable K} (g : Graph K V W) (k : K) (n : Node K V W),
     m_umap g !! k = Some n ->
     degree_in g k
       = inr (stdpp.base.size
                (filter (fun kn : K * Node K V W => is_Some (m_edge kn.2 !! k)) (m_umap g))) /\
     degree_out g k = inr (stdpp.base.size (m_edge n)) /\
     loop g k = inr (bool_decide (is_Some (m_edge n !! k)))) /\
  on_scenario (fun g => degree_out g "A") = inr 2 /\
  on_scenario (fun g => degree_out g "C") = inr 0 /\
  on_scenario (fun g => degree_in g "C") = inr 2 /\
  on_scenario (fun g => degree_in g "A") = inr 0 /\
  on_scenario (fun g => loop g "A") = inr false.
Proof.
  split; [intros; by apply degree_queries|].
  repeat split; vm_compute; reflexivity.
Qed.

(** C8: [g1 = std::move(g0)] with [g1] holding node B: the moved-from
    object is not empty afterwards, it holds node B. *)
Lemma move_assign_source_not_empty_cex :
  match move_assign store_AB 1 0 !! 0 with
  | Some g => empty g = false /\ is_Some (m_umap g !! "B")
  | None => False
  end.
Proof. vm_compute. split; [reflexivity | eauto]. Qed.

Lemma insert_node_find_witness :
  insert_node Graph_default "A" 0 = (graph_A, ("A", true)) /\
  insert_node graph_A "A" 7 = (graph_A, ("A", false)).
Proof.
  split; [reflexivity|].
  apply (insert_node_find Graph_default graph_A "A" "A" 0 7); reflexivity.
Defined.

Lemma copy_construct_independent_witness :
  store_AB !! 0 = Some graph_A /\
  mutate_at (copy_construct store_AB 2 0) 2 (fun g => (insert_node g "D" 0).1) !! 0
  = Some graph_A.
Proof.
  split; [reflexivity|].
  apply (copy_construct_independent store_AB 0 2 graph_A); reflexivity.
Defined.

Lemma insert_edge_missing_target_witness :
  insert_edge graph_A ("A", "ghost") 1 = inl KeyNotFound.
Proof.
  apply insert_edge_missing_target; vm_compute; [eauto | reflexivity].
Defined.

Lemma subscript_absent_witness :
  m_umap graph_A !! "B" = None /\
  (subscript 0 graph_A "B").2 = mkNode 0 ∅ /\
  size (subscript 0 graph_A "B").1 = S (size graph_A) /\
  at_ (subscript 0 graph_A "B").1 "B" = inr (mkNode 0 ∅).
Proof. split; [reflexivity|]. apply subscript_absent. reflexivity. Defined.

Lemma subscript_present_witness :
  m_umap graph_A !! "A" = Some (mkNode 0 ∅) /\
  subscript 3 graph_A "A" = (graph_A, mkNode 0 ∅).
Proof. split; [reflexivity|]. apply subscript_present. reflexivity. Defined.

Lemma node_insertions_frame_witness :
  m_umap (insert_node graph_A "B" 1).1 !! "A" = m_umap graph_A !! "A" /\
  m_umap (insert_or_assign_node graph_A "B" 1).1 !! "A" = m_umap graph_A !! "A".
Proof. apply node_insertions_frame. discriminate. Defined.

Lemma insert_edge_frame_witness :
  insert_edge graph_ABC ("A", "B") 5 = inr (graph_ABC_AB, ("B", true)) /\
  (forall k, k <> "A" -> m_umap graph_ABC_AB !! k = m_umap graph_ABC !! k) /\
  exists n n', m_umap graph_ABC !! "A" = Some n /\ m_umap graph_ABC_AB !! "A" = Some n' /\
    m_value n' = m_value n.
Proof.
  split; [vm_compute; reflexivity|].
  apply (insert_edge_frame graph_ABC graph_ABC_AB "A" "B" "B" 5 true).
  vm_compute; reflexivity.
Defined.

Lemma insert_edge_degree_out_witness :
  insert_edge graph_ABC ("A", "B") 5 = inr (graph_ABC_AB, ("B", true)) /\
  exists d, degree_out graph_ABC "A" = inr d /\ degree_out graph_ABC_AB "A" = inr (S d).
Proof.
  split; [vm_compute; reflexivity|].
  apply (insert_edge_degree_out graph_ABC graph_ABC_AB "A" "B" "B" 5 true).
  vm_compute; reflexivity.
Defined.

Lemma insert_edge_degree_in_witness :
  insert_edge graph_ABC ("A", "B") 5 = inr (graph_ABC_AB, ("B", true)) /\
  exists d, degree_in graph_ABC "B" = inr d /\ degree_in graph_ABC_AB "B" = inr (S d).
Proof.
  split; [vm_compute; reflexivity|].
  apply (insert_edge_degree_in graph_ABC graph_ABC_AB "A" "B" "B" 5 true).
  vm_compute; reflexivity.
Defined.

Lemma insert_or_assign_edge_sets_weight_witness :
  insert_or_assign_edge graph_ABC ("A", "B") 9 = inr (graph_ABC_AB9, ("B", true)) /\
  exists n', at_ graph_ABC_AB9 "A" = inr n' /\ m_edge n' !! "B" = Some 9.
Proof.
  split; [vm_compute; reflexivity|].
  apply (insert_or_assign_edge_sets_weight graph_ABC graph_ABC_AB9 "A" "B" 9 ("B", true)).
  vm_compute; reflexivity.
Defined.

Lemma insert_or_assign_edge_dangling_witness :
  exists g' r, insert_or_assign_edge graph_A ("A", "ghost") 1 = inr (g', r) /\
    m_umap g' !! "ghost" = None /\ degree_in g' "ghost" = inl KeyNotFound /\
    exists n', at_ g' "A" = inr n' /\ m_edge n' !! "ghost" = Some 1.
Proof.
  apply insert_or_assign_edge_dangling; vm_compute; [eauto | reflexivity].
Defined.

Lemma degree_in_le_size_witness :
  degree_in scenario_graph "C" = inr 2 /\ 2 <= size scenario_graph.
Proof.
  split; [vm_compute; reflexivity|].
  apply (degree_in_le_size scenario_graph "C" 2). vm_compute; reflexivity.
Defined.

Lemma copy_assign_spec_witness :
  store_AB !! 0 = Some graph_A /\
  copy_assign store_AB 1 0 !! 1 = Some graph_A /\
  copy_assign store_AB 1 0 !! 0 = Some graph_A /\
  (forall l, l <> 1 -> copy_assign store_AB 1 0 !! l = store_AB !! l).
Proof. split; [reflexivity|]. apply copy_assign_spec. reflexivity. Defined.
